(** * The Genesis greeting bridge ([native-lib.cpp])

  A verification development for the one exported JNI function of the
  repository,

    [Java_com_auraframes_fx_MainActivity_stringFromJNI(JNIEnv *env, jobject)]

  which builds a [std::string] from the literal
  ["Hello from Genesis C++ Core"] and hands [hello.c_str()] to
  [env->NewStringUTF].

  The embedding threads the process state explicitly: native memory (the
  buffers owned by [std::string]), the interface tables reachable through
  [JNIEnv *] pointers, the managed heap of the Java runtime, and the rest
  of the process (globals and files).  Dereferencing a pointer that does
  not point to an object is undefined behaviour and is modelled by the
  [Undefined] outcome.

  The development has two layers.  The first takes native allocation
  ([operator new]) to succeed, and covers what the bridge does then.  The
  second bounds native memory: there [operator new] throws
  [std::bad_alloc] when the request does not fit, and the exception leaves
  the bridge, which catches nothing.  With room for the buffer of [hello]
  the two layers agree ([limited_with_room]). *)

From Stdlib Require Import ZArith List Strings.Byte Ascii String.
From stdpp Require Import gmap strings list fin_maps.

Local Open Scope Z_scope.

(** ** C strings *)

Module CString.

Definition NUL : Byte.byte := Byte.x00.

Definition code (b : Byte.byte) : Z := Z.of_N (Byte.to_N b).

Definition is_nul (b : Byte.byte) : bool := code b =? 0.

(** The array a string literal denotes: its characters followed by the
    terminating NUL. *)
Definition literal (s : String.string) : list Byte.byte :=
  list_byte_of_string s ++ [NUL].

(** What a reader of a [const char *] sees: the bytes before the first
    NUL.  A buffer without terminator makes the reader run off its end. *)
Fixpoint chars (buf : list Byte.byte) : option (list Byte.byte) :=
  match buf with
  | [] => None
  | b :: rest =>
      if is_nul b then Some []
      else match chars rest with
           | Some cs => Some (b :: cs)
           | None => None
           end
  end.

(** 7-bit characters other than NUL. *)
Definition ascii_nonnul (b : Byte.byte) : Prop := 0 < code b < 128.

Definition ascii_nonnulb (b : Byte.byte) : bool :=
  (0 <? code b) && (code b <? 128).

End CString.

(** ** Modified UTF-8, the encoding [NewStringUTF] reads

  One byte [0x01..0x7F] is one UTF-16 unit; [110xxxxx 10yyyyyy] and
  [1110xxxx 10yyyyyy 10zzzzzz] are the two- and three-byte forms (the
  two-byte form also encodes U+0000).  Anything else is malformed. *)

Module MUTF8.
Import CString.

Definition is_cont (b : Byte.byte) : bool := Z.land (code b) 0xC0 =? 0x80.

Definition unit2 (b1 b2 : Byte.byte) : Z :=
  Z.lor (Z.shiftl (Z.land (code b1) 0x1F) 6) (Z.land (code b2) 0x3F).

Definition unit3 (b1 b2 b3 : Byte.byte) : Z :=
  Z.lor (Z.shiftl (Z.land (code b1) 0x0F) 12)
        (Z.lor (Z.shiftl (Z.land (code b2) 0x3F) 6) (Z.land (code b3) 0x3F)).

Fixpoint decode (bs : list Byte.byte) : option (list Z) :=
  match bs with
  | [] => Some []
  | b :: rest =>
      if (0 <? code b) && (code b <? 0x80) then
        match decode rest with
        | Some us => Some (code b :: us)
        | None => None
        end
      else if Z.land (code b) 0xE0 =? 0xC0 then
        match rest with
        | b2 :: rest2 =>
            if is_cont b2 then
              match decode rest2 with
              | Some us => Some (unit2 b b2 :: us)
              | None => None
              end
            else None
        | [] => None
        end
      else if Z.land (code b) 0xF0 =? 0xE0 then
        match rest with
        | b2 :: b3 :: rest3 =>
            if is_cont b2 && is_cont b3 then
              match decode rest3 with
              | Some us => Some (unit3 b b2 b3 :: us)
              | None => None
              end
            else None
        | _ => None
        end
      else None
  end.

End MUTF8.

(** ** Outcomes of native code *)

(** A native computation either returns or has undefined behaviour. *)
Inductive outcome (A : Type) : Type :=
| Returns (a : A)
| Undefined.

Arguments Returns {A} a.
Arguments Undefined {A}.

(** ** The managed runtime as seen through JNI *)

Module Jni.

(** Object references ([jobject], [jstring]) and pointers are addresses;
    address 0 is the null reference. *)
Definition NULL : Z := 0.

Inductive Throwable : Type :=
| OutOfMemoryError.

(** The managed heap: [java.lang.String] instances by reference, each a
    sequence of UTF-16 code units; the exception pending in the calling
    thread, if any.  [free_slots] is how many more objects fit. *)
Record JVM : Type := {
  objects : gmap Z (list Z);
  free_slots : nat;
  pending : option Throwable
}.

(** [JNIEnv] is a table of functions provided by the host runtime.  The
    bridge uses one entry, [jstring NewStringUTF(const char *bytes)]: it is
    given the pointer and the native memory the pointer refers to (which it
    can read and not write), and acts on the managed heap. *)
Record JNIEnv : Type := {
  NewStringUTF : Z -> gmap Z (list Byte.byte) -> JVM -> Z * JVM
}.

(** What a reader of the [const char *] [a] finds in native memory. *)
Definition c_string_at (mem : gmap Z (list Byte.byte)) (a : Z)
  : option (list Byte.byte) :=
  match mem !! a with
  | Some buf => CString.chars buf
  | None => None
  end.

(** The contract of [NewStringUTF] in the JNI specification: on well-formed
    input it either returns a reference to a new string holding the decoded
    text, leaving every other object as it was, or it returns [NULL] with
    [OutOfMemoryError] pending and allocates nothing. *)
Inductive NewStringUTF_post (us : list Z) (j : JVM) : Z * JVM -> Prop :=
| created (r : Z) (j' : JVM) :
    r <> NULL ->
    objects j !! r = None ->
    objects j' = <[r := us]> (objects j) ->
    pending j' = pending j ->
    NewStringUTF_post us j (r, j')
| out_of_memory (j' : JVM) :
    objects j' = objects j ->
    pending j' = Some OutOfMemoryError ->
    NewStringUTF_post us j (NULL, j').

Definition conforming (e : JNIEnv) : Prop :=
  forall (a : Z) (mem : gmap Z (list Byte.byte)) (j : JVM)
         (cs : list Byte.byte) (us : list Z),
    c_string_at mem a = Some cs ->
    MUTF8.decode cs = Some us ->
    NewStringUTF_post us j (NewStringUTF e a mem j).

End Jni.

(** ** The process *)

Record World : Type := {
  globals : gmap string Z;
  files : gmap string (list Byte.byte)
}.

Record Process : Type := {
  envs : gmap Z Jni.JNIEnv;          (* what a [JNIEnv *] can point to *)
  native : gmap Z (list Byte.byte);  (* live native buffers by address *)
  jvm : Jni.JVM;                     (* the managed heap *)
  world : World                      (* globals and files *)
}.

Definition set_native (h : gmap Z (list Byte.byte)) (p : Process) : Process :=
  {| envs := envs p; native := h; jvm := jvm p; world := world p |}.

Definition set_jvm (j : Jni.JVM) (p : Process) : Process :=
  {| envs := envs p; native := native p; jvm := j; world := world p |}.

(** Native code: a computation over the process that may be undefined. *)
Definition Native (A : Type) : Type := Process -> outcome (A * Process).

Definition ret {A : Type} (a : A) : Native A := fun p => Returns (a, p).

Definition bind {A B : Type} (k : A -> Native B) (m : Native A) : Native B :=
  fun p =>
    match m p with
    | Returns (a, p') => k a p'
    | Undefined => Undefined
    end.

Definition undefined {A : Type} : Native A := fun _ => Undefined.

#[global] Instance Native_ret : MRet Native := @ret.
#[global] Instance Native_bind : MBind Native := @bind.

(** ** The native allocator *)

(** An address that is not null and holds no live buffer. *)
Definition native_alloc (h : gmap Z (list Byte.byte)) : Z :=
  fresh ({[Jni.NULL]} ∪ dom h).

(** [operator new] when native memory suffices (for the allocation that can
    fail see [operator_new_limited]). *)
Definition operator_new (buf : list Byte.byte) : Native Z :=
  fun p =>
    let a := native_alloc (native p) in
    Returns (a, set_native (<[a := buf]> (native p)) p).

(** Releasing what is not a live buffer is undefined. *)
Definition operator_delete (a : Z) : Native unit :=
  fun p =>
    match native p !! a with
    | Some _ => Returns (tt, set_native (delete a (native p)) p)
    | None => Undefined
    end.

(** ** [std::string] *)

Record std_string : Type := {
  data : Z;       (* the owned, NUL-terminated buffer *)
  len : nat        (* its length, terminator not counted *)
}.

(** [std::string(const char *s)]: measure [s] up to its terminator and copy
    the characters into a buffer of its own. *)
Definition std_string_ctor (s : list Byte.byte) : Native std_string :=
  match CString.chars s with
  | Some cs =>
      a ← operator_new (cs ++ [CString.NUL]);
      mret {| data := a; len := length cs |}
  | None => undefined
  end.

Definition c_str (s : std_string) : Z := data s.

Definition std_string_dtor (s : std_string) : Native unit :=
  operator_delete (data s).

(** ** Calls through [JNIEnv *] *)

(** The meaning of [env->]: the table [env] points to.  The language gives
    no meaning to going through a null pointer or through a pointer to no
    object; the bridge itself tests nothing. *)
Definition deref_env (env : Z) : Native Jni.JNIEnv :=
  fun p =>
    if env =? Jni.NULL then Undefined
    else match envs p !! env with
         | Some e => Returns (e, p)
         | None => Undefined
         end.

(** The call of the table entry: the managed heap becomes what the host
    leaves, and the host's result is the result. *)
Definition call_NewStringUTF (e : Jni.JNIEnv) (bytes : Z) : Native Z :=
  fun p =>
    let rj := Jni.NewStringUTF e bytes (native p) (jvm p) in
    Returns (fst rj, set_jvm (snd rj) p).

(** [env->NewStringUTF(bytes)] *)
Definition JNIEnv_NewStringUTF (env : Z) (bytes : Z) : Native Z :=
  e ← deref_env env;
  call_NewStringUTF e bytes.

(** ** The bridge *)

Definition greeting : String.string := "Hello from Genesis C++ Core".

Definition greeting_bytes : list Byte.byte := list_byte_of_string greeting.

(** The content a Java string has when it holds the greeting. *)
Definition greeting_units : list Z := map CString.code greeting_bytes.

(** [[
    Java_com_auraframes_fx_MainActivity_stringFromJNI(JNIEnv *env, jobject) {
        std::string hello = "Hello from Genesis C++ Core";
        return env->NewStringUTF(hello.c_str());
    }
    ]]
    [hello] is destroyed when the function returns, after the call. *)
Definition Java_com_auraframes_fx_MainActivity_stringFromJNI
    (env : Z) (this : Z) : Native Z :=
  hello ← std_string_ctor (CString.literal greeting);
  r ← JNIEnv_NewStringUTF env (c_str hello);
  _ ← std_string_dtor hello;
  mret r.

Abbreviation stringFromJNI := Java_com_auraframes_fx_MainActivity_stringFromJNI.

(** The buffer [hello] owns once constructed. *)
Definition hello_buffer : list Byte.byte := greeting_bytes ++ [CString.NUL].

(** The one call the bridge makes in process [p] through the table [e]: the
    argument is the address of [hello]'s buffer, live in native memory. *)
Definition the_call (e : Jni.JNIEnv) (p : Process) : Z * Jni.JVM :=
  Jni.NewStringUTF e (native_alloc (native p))
    (<[native_alloc (native p) := hello_buffer]> (native p)) (jvm p).

(** A handle the bridge can be called with: a non-null pointer to the
    interface table of a runtime that honours the JNI contract. *)
Definition valid_handle (p : Process) (env : Z) (e : Jni.JNIEnv) : Prop :=
  env <> Jni.NULL /\ envs p !! env = Some e /\ Jni.conforming e.

(** Sequential invocations, one per (environment, caller) pair, collecting
    the returned references. *)
Fixpoint invocations (calls : list (Z * Z)) : Native (list Z) :=
  match calls with
  | [] => mret []
  | (env, this) :: calls' =>
      r ← stringFromJNI env this;
      rs ← invocations calls';
      mret (r :: rs)
  end.

(** ** Execution in steps, and threads

    The body of the bridge performs three actions on the process: the
    construction of [hello], the call through [env], and the destruction of
    [hello].  A thread executing the bridge is at one of these points. *)

Inductive thread : Type :=
| Entered (env this : Z)
| Built (env : Z) (hello : std_string)
| Called (hello : std_string) (r : Z)
| Returned (r : Z)
| Crashed.

Definition advance {A : Type} (m : Native A) (k : A -> thread) (p : Process)
  : thread * Process :=
  match m p with
  | Returns (a, p') => (k a, p')
  | Undefined => (Crashed, p)
  end.

Definition thread_step (t : thread) (p : Process) : option (thread * Process) :=
  match t with
  | Entered env this =>
      Some (advance (std_string_ctor (CString.literal greeting)) (Built env) p)
  | Built env hello =>
      Some (advance (JNIEnv_NewStringUTF env (c_str hello)) (Called hello) p)
  | Called hello r =>
      Some (advance (std_string_dtor hello) (fun _ => Returned r) p)
  | Returned _ => None
  | Crashed => None
  end.

(** A thread run on its own for at most [n] steps. *)
Fixpoint run (n : nat) (t : thread) (p : Process) : thread * Process :=
  match n with
  | O => (t, p)
  | S n' =>
      match thread_step t p with
      | Some (t', p') => run n' t' p'
      | None => (t, p)
      end
  end.

(** Threads of one process interleave at the granularity of these actions:
    the allocator and the JNI functions are the host's, and are atomic with
    respect to each other. *)
Inductive step : list thread * Process -> list thread * Process -> Prop :=
| step_thread (i : nat) (ts : list thread) (p : Process)
              (t t' : thread) (p' : Process) :
    ts !! i = Some t ->
    thread_step t p = Some (t', p') ->
    step (ts, p) (<[i := t']> ts, p').

Definition finished (t : thread) : bool :=
  match t with
  | Returned _ => true
  | _ => false
  end.

Definition result_of (t : thread) : option Z :=
  match t with
  | Called _ r => Some r
  | Returned r => Some r
  | _ => None
  end.

Definition buffer_of (t : thread) : option Z :=
  match t with
  | Built _ hello => Some (data hello)
  | Called hello _ => Some (data hello)
  | _ => None
  end.

Definition enter (call : Z * Z) : thread := Entered (fst call) (snd call).

(** What the caller gets from a thread that has stopped. *)
Definition outcome_of (t : thread) (p : Process) : outcome (Z * Process) :=
  match t with
  | Returned r => Returns (r, p)
  | _ => Undefined
  end.

(** The actions a thread has still to perform. *)
Definition remaining (t : thread) : nat :=
  match t with
  | Entered _ _ => 3
  | Built _ _ => 2
  | Called _ _ => 1
  | Returned _ => 0
  | Crashed => 0
  end.

Definition remaining_all (ts : list thread) : nat :=
  foldr (fun t n => (remaining t + n)%nat) 0%nat ts.

(** A schedule names, action by action, the thread that moves. *)
Definition sched_step (i : nat) (c : list thread * Process)
  : option (list thread * Process) :=
  match fst c !! i with
  | Some t =>
      match thread_step t (snd c) with
      | Some (t', p') => Some (<[i := t']> (fst c), p')
      | None => None
      end
  | None => None
  end.

Fixpoint schedule (order : list nat) (c : list thread * Process)
  : option (list thread * Process) :=
  match order with
  | [] => Some c
  | i :: order' =>
      match sched_step i c with
      | Some c' => schedule order' c'
      | None => None
      end
  end.

(** What holds of a thread of a process [p] that started from [p0] with
    valid handles: its handle is still valid, the buffer it owns is live and
    holds the greeting, and the string it was given holds the greeting. *)
Definition thread_ok (p0 p : Process) (t : thread) : Prop :=
  match t with
  | Entered env _ => exists e, valid_handle p0 env e
  | Built env hello =>
      (exists e, valid_handle p0 env e) /\
      native p !! data hello = Some hello_buffer
  | Called hello r =>
      native p !! data hello = Some hello_buffer /\
      (r <> Jni.NULL -> Jni.objects (jvm p) !! r = Some greeting_units)
  | Returned r =>
      r <> Jni.NULL -> Jni.objects (jvm p) !! r = Some greeting_units
  | Crashed => False
  end.

(** No two threads share a buffer or a string. *)
Definition separate (ts : list thread) : Prop :=
  forall i j ti tj,
    ts !! i = Some ti -> ts !! j = Some tj -> i <> j ->
    (forall a, buffer_of ti = Some a -> buffer_of tj <> Some a) /\
    (forall r, r <> Jni.NULL ->
       result_of ti = Some r -> result_of tj <> Some r).

Definition config_ok (p0 : Process) (c : list thread * Process) : Prop :=
  envs (snd c) = envs p0 /\
  world (snd c) = world p0 /\
  (forall i t, fst c !! i = Some t -> thread_ok p0 (snd c) t) /\
  separate (fst c).

(** ** The exported symbol *)

(** The name the function is exported under ([extern "C"]: the identifier
    itself). *)
Definition exported_symbol : String.string :=
  "Java_com_auraframes_fx_MainActivity_stringFromJNI".

Module SymbolSpec.

(** The naming rule as the specification words it: the qualified type name
    with its separators turned into underscores and each underscore of its
    own escaped as the two characters [_1], between the bridge prefix and the
    method name. *)
Fixpoint escape_qualified (s : String.string) : String.string :=
  match s with
  | EmptyString => EmptyString
  | String c s' =>
      if Ascii.eqb c "." then String "_" (escape_qualified s')
      else if Ascii.eqb c "_" then String "_" (String "1" (escape_qualified s'))
      else String c (escape_qualified s')
  end.

Definition bridge_prefix : String.string := "Java".

Definition symbol_name (caller_type method : String.string) : String.string :=
  (bridge_prefix ++ "_" ++ escape_qualified caller_type
     ++ "_" ++ method)%string.

End SymbolSpec.

(** ** A reference runtime

    A runtime that honours the contract, to run the bridge on: it decodes the
    text, allocates the string at an unused reference while there is room,
    and otherwise raises [OutOfMemoryError]. *)

Module RefJVM.
Import Jni.

Definition new_ref (objs : gmap Z (list Z)) : Z :=
  fresh ({[NULL]} ∪ dom objs).

Definition NewStringUTF (a : Z) (mem : gmap Z (list Byte.byte)) (j : JVM)
  : Z * JVM :=
  match free_slots j with
  | S n =>
      match c_string_at mem a with
      | Some cs =>
          match MUTF8.decode cs with
          | Some us =>
              let r := new_ref (objects j) in
              (r, {| objects := <[r := us]> (objects j);
                     free_slots := n;
                     pending := pending j |})
          | None => (NULL, j)
          end
      | None => (NULL, j)
      end
  | O =>
      (NULL, {| objects := objects j;
                free_slots := O;
                pending := Some OutOfMemoryError |})
  end.

Definition env : JNIEnv := {| Jni.NewStringUTF := NewStringUTF |}.

Definition empty_jvm (slots : nat) : JVM :=
  {| objects := ∅; free_slots := slots; pending := None |}.

(** A process with one runtime environment at address 4096 and room for
    [slots] objects. *)
Definition process (slots : nat) : Process :=
  {| envs := {[ 4096 := env ]};
     native := ∅;
     jvm := empty_jvm slots;
     world := {| globals := ∅; files := ∅ |} |}.

(** A process of eight threads, each with a runtime environment of its own
    ([JNIEnv] is per thread), and room for [slots] objects. *)
Definition thread_env (i : nat) : Z := 4096 + 64 * Z.of_nat i.

Definition threaded_process (slots : nat) : Process :=
  {| envs := list_to_map (map (fun i => (thread_env i, env)) (seq 0 8));
     native := ∅;
     jvm := empty_jvm slots;
     world := {| globals := ∅; files := ∅ |} |}.

(** Eight callers, one per thread, and an interleaving of their twenty-four
    actions. *)
Definition eight_calls : list (Z * Z) :=
  map (fun i => (thread_env i, 11 + Z.of_nat i)) (seq 0 8).

(** The eight threads at the entry of the bridge. *)
Definition eight_threads : list thread * Process :=
  (map enter eight_calls, threaded_process 8).

Definition interleaving : list nat :=
  [0; 1; 2; 3; 4; 5; 6; 7;
   7; 6; 5; 4; 3; 2; 1; 0;
   3; 1; 4; 0; 5; 2; 7; 6]%nat.

End RefJVM.

(** What an outcome shows: the reference returned, the strings of the
    managed heap, the live native buffers and the pending exception. *)
Definition shown (o : outcome (Z * Process)) :=
  match o with
  | Returns (r, p) =>
      Some (r, map_to_list (Jni.objects (jvm p)), map_to_list (native p),
            Jni.pending (jvm p))
  | Undefined => None
  end.

(** The heaps of a configuration accounted for, against the process [p0]
    the threads started in: what was there is still there, and anything
    else is the buffer, or the string, of one of the threads.  No thread's
    buffer or string lies where [p0] had one. *)
Definition accounted (p0 : Process) (c : list thread * Process) : Prop :=
  native p0 ⊆ native (snd c) /\
  (forall a, is_Some (native (snd c) !! a) ->
     is_Some (native p0 !! a) \/
     exists i t, fst c !! i = Some t /\ buffer_of t = Some a) /\
  (forall i t a, fst c !! i = Some t -> buffer_of t = Some a ->
     native p0 !! a = None) /\
  Jni.objects (jvm p0) ⊆ Jni.objects (jvm (snd c)) /\
  (forall r, is_Some (Jni.objects (jvm (snd c)) !! r) ->
     is_Some (Jni.objects (jvm p0) !! r) \/
     exists i t, fst c !! i = Some t /\ result_of t = Some r /\ r <> Jni.NULL) /\
  (forall i t r, fst c !! i = Some t -> result_of t = Some r ->
     r <> Jni.NULL -> Jni.objects (jvm p0) !! r = None).

(** ** A runtime with room

    [room j] bounds from below the number of strings the runtime can still
    create in the managed heap [j]: while it is positive a request for
    well-formed text does not fail, and uses up at most one. *)
Definition serves (room : Jni.JVM -> nat) (e : Jni.JNIEnv) : Prop :=
  forall (a : Z) (mem : gmap Z (list Byte.byte)) (j : Jni.JVM)
         (cs : list Byte.byte) (us : list Z),
    Jni.c_string_at mem a = Some cs ->
    MUTF8.decode cs = Some us ->
    (0 < room j)%nat ->
    fst (Jni.NewStringUTF e a mem j) <> Jni.NULL /\
    (room j <= S (room (snd (Jni.NewStringUTF e a mem j))))%nat.





(** ** Native memory that can run out *)

Inductive cpp_exception : Type :=
| bad_alloc.

(** How a call of native code ends when exceptions are possible: as before
    (it returns, or its behaviour is undefined), or an exception leaves it,
    in the process state [p]. *)
Inductive completion (A : Type) : Type :=
| Ordinary (o : outcome (A * Process))
| Thrown (x : cpp_exception) (p : Process).

Arguments Ordinary {A} o.
Arguments Thrown {A} x p.

Definition Throwing (A : Type) : Type := Process -> completion A.

Definition lift {A : Type} (m : Native A) : Throwing A :=
  fun p => Ordinary (m p).

Definition ret_throwing {A : Type} (a : A) : Throwing A := lift (ret a).

(** Sequencing: an exception that nothing catches ends what follows. *)
Definition bind_throwing {A B : Type} (k : A -> Throwing B) (m : Throwing A)
  : Throwing B :=
  fun p =>
    match m p with
    | Ordinary (Returns (a, p')) => k a p'
    | Ordinary Undefined => Ordinary Undefined
    | Thrown x p' => Thrown x p'
    end.

(** The bytes of the live native buffers. *)
Definition native_used (h : gmap Z (list Byte.byte)) : nat :=
  map_fold (fun _ buf n => (length buf + n)%nat) 0%nat h.

(** [operator new] in a native heap of [limit] bytes: the buffer when it
    fits, [std::bad_alloc] when it does not. *)
Definition operator_new_limited (limit : nat) (buf : list Byte.byte)
  : Throwing Z :=
  fun p =>
    if decide (native_used (native p) + length buf <= limit)%nat
    then Ordinary (operator_new buf p)
    else Thrown bad_alloc p.

Definition std_string_ctor_limited (limit : nat) (s : list Byte.byte)
  : Throwing std_string :=
  match CString.chars s with
  | Some cs =>
      bind_throwing
        (fun a => ret_throwing {| data := a; len := length cs |})
        (operator_new_limited limit (cs ++ [CString.NUL]))
  | None => lift undefined
  end.

(** The bridge in a native heap of [limit] bytes.  The body has no [try]:
    what the construction of [hello] throws leaves the function. *)
Definition stringFromJNI_limited (limit : nat) (env : Z) (this : Z)
  : Throwing Z :=
  bind_throwing
    (fun hello =>
       bind_throwing
         (fun r =>
            bind_throwing
              (fun _ => ret_throwing r)
              (lift (std_string_dtor hello)))
         (lift (JNIEnv_NewStringUTF env (c_str hello))))
    (std_string_ctor_limited limit (CString.literal greeting)).

(** Whether the native heap of [p] has the bytes [hello] needs: its 27
    characters and the terminator. *)
Definition room_for_hello (limit : nat) (p : Process) : Prop :=
  (native_used (native p) + 28 <= limit)%nat.

(** Execution in steps, as before, with the exception on its way out. *)
Inductive activity : Type :=
| Active (t : thread)
| Unwinding (x : cpp_exception).

Definition thread_step_limited (limit : nat) (a : activity) (p : Process)
  : option (activity * Process) :=
  match a with
  | Active (Entered env this) =>
      match std_string_ctor_limited limit (CString.literal greeting) p with
      | Ordinary (Returns (hello, p')) => Some (Active (Built env hello), p')
      | Ordinary Undefined => Some (Active Crashed, p)
      | Thrown x p' => Some (Unwinding x, p')
      end
  | Active t =>
      match thread_step t p with
      | Some (t', p') => Some (Active t', p')
      | None => None
      end
  | Unwinding _ => None
  end.

Fixpoint run_limited (limit : nat) (n : nat) (a : activity) (p : Process)
  : activity * Process :=
  match n with
  | O => (a, p)
  | S n' =>
      match thread_step_limited limit a p with
      | Some (a', p') => run_limited limit n' a' p'
      | None => (a, p)
      end
  end.

Definition completion_of (a : activity) (p : Process) : completion Z :=
  match a with
  | Active t => Ordinary (outcome_of t p)
  | Unwinding x => Thrown x p
  end.

(** ** Marshalling of 7-bit text *)

Section AsciiMarshalling.
Import CString.

Lemma chars_terminated (bs : list Byte.byte) :
  Forall ascii_nonnul bs -> chars (bs ++ [NUL]) = Some bs.
Proof.
  induction 1 as [|b bs Hb _ IH]; simpl; [reflexivity|].
  unfold is_nul. destruct (Z.eqb_spec (code b) 0) as [E|_].
  - unfold ascii_nonnul in Hb. lia.
  - now rewrite IH.
Qed.

Lemma decode_ascii (bs : list Byte.byte) :
  Forall ascii_nonnul bs -> MUTF8.decode bs = Some (map code bs).
Proof.
  induction 1 as [|b bs Hb _ IH]; simpl; [reflexivity|].
  unfold ascii_nonnul in Hb.
  replace ((0 <? code b) && (code b <? 128))%bool with true.
  - now rewrite IH.
  - symmetry. apply andb_true_intro. split; apply Z.ltb_lt; lia.
Qed.

Lemma ascii_nonnulb_spec (bs : list Byte.byte) :
  forallb ascii_nonnulb bs = true -> Forall ascii_nonnul bs.
Proof.
  rewrite forallb_forall, Forall_forall. intros H b Hb.
  apply list_elem_of_In in Hb.
  specialize (H b Hb). unfold ascii_nonnulb in H.
  apply andb_prop in H as [H1 H2]. apply Z.ltb_lt in H1, H2.
  split; assumption.
Qed.

End AsciiMarshalling.

(** ** The literal *)

Lemma greeting_chars :
  CString.chars (CString.literal greeting) = Some greeting_bytes.
Proof. reflexivity. Qed.

Lemma greeting_ascii : Forall CString.ascii_nonnul greeting_bytes.
Proof. apply ascii_nonnulb_spec. reflexivity. Qed.

Lemma greeting_decodes : MUTF8.decode greeting_bytes = Some greeting_units.
Proof. apply decode_ascii, greeting_ascii. Qed.

(** ** The allocator and [std::string] *)

Section NativeMemory.
Implicit Types (h : gmap Z (list Byte.byte)) (p : Process).

Lemma native_alloc_not_null h : native_alloc h <> Jni.NULL.
Proof.
  unfold native_alloc. intros E.
  apply (is_fresh ({[Jni.NULL]} ∪ dom h)). rewrite E. set_solver.
Qed.

Lemma native_alloc_fresh h : h !! native_alloc h = None.
Proof.
  apply not_elem_of_dom. unfold native_alloc. intros E.
  apply (is_fresh ({[Jni.NULL]} ∪ dom h)). set_solver.
Qed.

Lemma alloc_then_release h buf :
  delete (native_alloc h) (<[native_alloc h := buf]> h) = h.
Proof. rewrite delete_insert_eq. apply delete_id, native_alloc_fresh. Qed.

Lemma ctor_greeting p :
  std_string_ctor (CString.literal greeting) p =
  Returns ({| data := native_alloc (native p); len := 27 |},
           set_native (<[native_alloc (native p) := hello_buffer]> (native p)) p).
Proof. unfold std_string_ctor. rewrite greeting_chars. reflexivity. Qed.

Lemma c_string_at_hello h a :
  Jni.c_string_at (<[a := hello_buffer]> h) a = Some greeting_bytes.
Proof.
  unfold Jni.c_string_at. rewrite lookup_insert_eq.
  apply chars_terminated, greeting_ascii.
Qed.

End NativeMemory.

(** ** The bridge, characterised *)

Section Bridge.
Implicit Types (p : Process) (e : Jni.JNIEnv) (env this r : Z).

Lemma deref_valid env e p :
  env <> Jni.NULL -> envs p !! env = Some e -> deref_env env p = Returns (e, p).
Proof.
  intros Hnn He. unfold deref_env.
  destruct (Z.eqb_spec env Jni.NULL); [contradiction|]. now rewrite He.
Qed.

Lemma deref_invalid env p :
  env = Jni.NULL \/ envs p !! env = None -> deref_env env p = Undefined.
Proof.
  intros [->|Hn]; unfold deref_env; [reflexivity|].
  rewrite Hn. now destruct (env =? Jni.NULL).
Qed.

(** With a pointer to a table, the bridge returns what the table's
    [NewStringUTF] returned, in a process that differs from the initial one
    by what that call did to the managed heap. *)
Lemma bridge_valid env this e p :
  env <> Jni.NULL -> envs p !! env = Some e ->
  stringFromJNI env this p =
  Returns (fst (the_call e p), set_jvm (snd (the_call e p)) p).
Proof.
  intros Hnn He.
  unfold Java_com_auraframes_fx_MainActivity_stringFromJNI.
  unfold mbind, Native_bind, bind. rewrite ctor_greeting.
  unfold JNIEnv_NewStringUTF, mbind, Native_bind, bind.
  rewrite (deref_valid env e) by assumption.
  unfold call_NewStringUTF, std_string_dtor, operator_delete, c_str. cbn.
  rewrite lookup_insert_eq, alloc_then_release. reflexivity.
Qed.

Lemma bridge_invalid env this p :
  env = Jni.NULL \/ envs p !! env = None ->
  stringFromJNI env this p = Undefined.
Proof.
  intros H.
  unfold Java_com_auraframes_fx_MainActivity_stringFromJNI.
  unfold mbind, Native_bind, bind. rewrite ctor_greeting.
  unfold JNIEnv_NewStringUTF, mbind, Native_bind, bind.
  rewrite deref_invalid; [reflexivity|exact H].
Qed.

(** What a conforming runtime does in that call. *)
Lemma the_call_post e p :
  Jni.conforming e ->
  Jni.NewStringUTF_post greeting_units (jvm p) (the_call e p).
Proof.
  intros Hc. apply (Hc _ _ _ greeting_bytes).
  - apply c_string_at_hello.
  - apply greeting_decodes.
Qed.

End Bridge.

(** ** The two layers *)

Section Layers.
Import Jni.
Implicit Types (p : Process) (env this : Z) (limit : nat).

Lemma hello_buffer_length : length hello_buffer = 28%nat.
Proof. reflexivity. Qed.

Lemma ctor_limited_room limit p :
  room_for_hello limit p ->
  std_string_ctor_limited limit (CString.literal greeting) p =
  Ordinary (std_string_ctor (CString.literal greeting) p).
Proof.
  intros Hroom. unfold std_string_ctor_limited, std_string_ctor.
  rewrite greeting_chars. unfold bind_throwing, operator_new_limited.
  fold hello_buffer. rewrite hello_buffer_length.
  destruct (decide (native_used (native p) + 28 <= limit)%nat) as [_|Hn];
    [reflexivity|contradiction].
Qed.

Lemma ctor_limited_full limit p :
  ~ room_for_hello limit p ->
  std_string_ctor_limited limit (CString.literal greeting) p =
  Thrown bad_alloc p.
Proof.
  intros Hfull. unfold std_string_ctor_limited.
  rewrite greeting_chars. unfold bind_throwing, operator_new_limited.
  fold hello_buffer. rewrite hello_buffer_length.
  destruct (decide (native_used (native p) + 28 <= limit)%nat) as [Hr|_];
    [contradiction|reflexivity].
Qed.

(** With room for the buffer of [hello], the bridge is the bridge of the
    first layer. *)
Lemma limited_with_room limit env this p :
  room_for_hello limit p ->
  stringFromJNI_limited limit env this p =
  Ordinary (stringFromJNI env this p).
Proof.
  intros Hroom. unfold stringFromJNI_limited, bind_throwing at 1.
  rewrite (ctor_limited_room limit p Hroom).
  unfold Java_com_auraframes_fx_MainActivity_stringFromJNI.
  unfold mbind, Native_bind, bind at 1. rewrite ctor_greeting.
  unfold bind_throwing, lift, bind, ret_throwing, lift. cbn beta iota.
  destruct (JNIEnv_NewStringUTF _ _ _) as [[r p2]|]; [|reflexivity].
  destruct (std_string_dtor _ _) as [[[] p3]|]; reflexivity.
Qed.

(** Without it, [std::bad_alloc] leaves the bridge, and nothing has been
    done. *)
Lemma limited_without_room limit env this p :
  ~ room_for_hello limit p ->
  stringFromJNI_limited limit env this p = Thrown bad_alloc p.
Proof.
  intros Hfull. unfold stringFromJNI_limited, bind_throwing at 1.
  now rewrite (ctor_limited_full limit p Hfull).
Qed.

End Layers.

(** ** The reference runtime honours the contract *)

Section Reference.
Import Jni.

Lemma new_ref_not_null (objs : gmap Z (list Z)) : RefJVM.new_ref objs <> NULL.
Proof.
  unfold RefJVM.new_ref. intros E.
  apply (is_fresh ({[NULL]} ∪ dom objs)). rewrite E. set_solver.
Qed.

Lemma new_ref_fresh (objs : gmap Z (list Z)) :
  objs !! RefJVM.new_ref objs = None.
Proof.
  apply not_elem_of_dom. unfold RefJVM.new_ref. intros E.
  apply (is_fresh ({[NULL]} ∪ dom objs)). set_solver.
Qed.

Lemma reference_conforming : conforming RefJVM.env.
Proof.
  intros a mem j cs us Hcs Hus. cbn. unfold RefJVM.NewStringUTF.
  destruct (free_slots j) as [|n].
  - now apply out_of_memory.
  - rewrite Hcs, Hus.
    apply created; cbn; auto using new_ref_not_null, new_ref_fresh.
Qed.

Lemma reference_handle (slots : nat) :
  valid_handle (RefJVM.process slots) 4096 RefJVM.env.
Proof.
  split; [discriminate|]. split; [reflexivity|]. apply reference_conforming.
Qed.



Lemma threaded_handles (slots : nat) :
  Forall (fun c => exists e, valid_handle (RefJVM.threaded_process slots) (fst c) e)
    RefJVM.eight_calls.
Proof.
  repeat constructor; exists RefJVM.env;
    (split; [discriminate|split; [reflexivity|apply reference_conforming]]).
Qed.

End Reference.

(** ** Results of one invocation *)

Section Results.
Import Jni.
Implicit Types (p : Process) (e : JNIEnv) (env this : Z).

(** C1.  Called with a valid context handle, the bridge returns what its
    call of [NewStringUTF] returned (also in bounded native memory, when
    there is room for [hello]).  So when string construction did not fail
    (that call did not return null) the bridge does not return null either;
    and the managed string it returns holds exactly the characters of the
    literal "Hello from Genesis C++ Core", one UTF-16 unit per byte of the
    literal and in the same order. *)
Theorem bridge_returns_greeting env e this p :
  valid_handle p env e ->
  exists r p',
    stringFromJNI env this p = Returns (r, p') /\
    (forall limit, room_for_hello limit p ->
       stringFromJNI_limited limit env this p = Ordinary (Returns (r, p'))) /\
    r = fst (the_call e p) /\
    (fst (the_call e p) <> NULL ->
     r <> NULL /\
     objects (jvm p') !! r =
     Some (map CString.code
             (list_byte_of_string "Hello from Genesis C++ Core"))).
Proof.
  intros (Hnn & He & Hc).
  exists (fst (the_call e p)), (set_jvm (snd (the_call e p)) p).
  split; [now apply bridge_valid|]. split.
  { intros limit Hroom. rewrite (limited_with_room limit env this p Hroom).
    now rewrite (bridge_valid env this e p Hnn He). }
  split; [reflexivity|].
  pose proof (the_call_post e p Hc) as Hpost.
  destruct Hpost as [r j' Hr _ Hobj _|j' _ _]; cbn.
  - intros _. split; [exact Hr|]. rewrite Hobj. apply lookup_insert_eq.
  - intros Hn. now contradiction Hn.
Qed.

Lemma bridge_returns_greeting_witness :
  exists r p',
    stringFromJNI 4096 7 (RefJVM.process 2) = Returns (r, p') /\
    (forall limit, room_for_hello limit (RefJVM.process 2) ->
       stringFromJNI_limited limit 4096 7 (RefJVM.process 2)
         = Ordinary (Returns (r, p'))) /\
    r = fst (the_call RefJVM.env (RefJVM.process 2)) /\
    (fst (the_call RefJVM.env (RefJVM.process 2)) <> NULL ->
     r <> NULL /\
     objects (jvm p') !! r =
     Some (map CString.code
             (list_byte_of_string "Hello from Genesis C++ Core"))).
Proof.
  apply (bridge_returns_greeting 4096 RefJVM.env 7 (RefJVM.process 2)).
  apply reference_handle.
Defined.

(** C4.  Called with a valid context handle the bridge returns (also in
    bounded native memory, when there is room for [hello]), and under normal
    conditions (the runtime's string construction does not fail: its
    [NewStringUTF] does not return null) the value it returns is not null
    and refers to a string object of the managed heap, which holds the
    greeting.  The bridge returns null only when that call failed, and then
    [OutOfMemoryError] is pending: a null result is never the bridge's own
    doing.  In particular, for a runtime that serves while it has room, room
    for one string is enough. *)
Theorem bridge_result_valid env e this p :
  valid_handle p env e ->
  exists r p',
    stringFromJNI env this p = Returns (r, p') /\
    (forall limit, room_for_hello limit p ->
       stringFromJNI_limited limit env this p = Ordinary (Returns (r, p'))) /\
    (fst (the_call e p) <> NULL ->
     r <> NULL /\ objects (jvm p') !! r = Some greeting_units) /\
    (r = NULL ->
     fst (the_call e p) = NULL /\
     pending (jvm p') = Some OutOfMemoryError) /\
    (forall room, serves room e -> (0 < room (jvm p))%nat ->
     r <> NULL /\ objects (jvm p') !! r = Some greeting_units).
Proof.
  intros (Hnn & He & Hc).
  exists (fst (the_call e p)), (set_jvm (snd (the_call e p)) p).
  split; [now apply bridge_valid|]. split.
  { intros limit Hroom. rewrite (limited_with_room limit env this p Hroom).
    now rewrite (bridge_valid env this e p Hnn He). }
  pose proof (the_call_post e p Hc) as Hpost.
  assert (fst (the_call e p) <> NULL ->
          fst (the_call e p) <> NULL /\
          objects (jvm (set_jvm (snd (the_call e p)) p)) !! fst (the_call e p)
            = Some greeting_units) as Hok.
  { destruct Hpost as [r j' Hr _ Hobj _|j' _ _]; cbn.
    - intros _. split; [exact Hr|]. rewrite Hobj. apply lookup_insert_eq.
    - intros Hn. now contradiction Hn. }
  split; [exact Hok|]. split.
  - destruct Hpost as [r j' Hr _ _ _|j' _ Hpend]; cbn; [contradiction|auto].
  - intros room Hs Hroom. apply Hok.
    apply (Hs _ _ _ greeting_bytes greeting_units);
      [apply c_string_at_hello|exact greeting_decodes|exact Hroom].
Qed.

Lemma bridge_result_valid_witness :
  exists r p',
    stringFromJNI 4096 7 (RefJVM.process 2) = Returns (r, p') /\
    (forall limit, room_for_hello limit (RefJVM.process 2) ->
       stringFromJNI_limited limit 4096 7 (RefJVM.process 2)
         = Ordinary (Returns (r, p'))) /\
    (fst (the_call RefJVM.env (RefJVM.process 2)) <> NULL ->
     r <> NULL /\ objects (jvm p') !! r = Some greeting_units) /\
    (r = NULL ->
     fst (the_call RefJVM.env (RefJVM.process 2)) = NULL /\
     pending (jvm p') = Some OutOfMemoryError) /\
    (forall room, serves room RefJVM.env ->
     (0 < room (jvm (RefJVM.process 2)))%nat ->
     r <> NULL /\ objects (jvm p') !! r = Some greeting_units).
Proof.
  apply (bridge_result_valid 4096 RefJVM.env 7 (RefJVM.process 2)).
  apply reference_handle.
Defined.

End Results.

(** ** The environment handle *)

Section Handle.
Import Jni.
Implicit Types (p : Process) (env this : Z).

(** C9.  The bridge goes through the environment handle without testing it.
    Called with the null handle its behaviour is undefined, whatever the
    process and the caller: it returns nothing, in particular no error
    value.  And it returns a value exactly when the handle is a non-null
    pointer to an interface table: this is the precondition of the call. *)
Theorem bridge_requires_valid_handle env this p :
  stringFromJNI NULL this p = Undefined /\
  ((exists x, stringFromJNI env this p = Returns x) <->
   env <> NULL /\ is_Some (envs p !! env)).
Proof.
  split.
  - apply bridge_invalid. now left.
  - split.
    + intros [x Hx].
      destruct (Z.eq_dec env NULL) as [->|Hnn].
      * rewrite bridge_invalid in Hx by now left. discriminate.
      * split; [exact Hnn|].
        destruct (envs p !! env) as [e|] eqn:He; [eauto|].
        rewrite bridge_invalid in Hx by now right. discriminate.
    + intros [Hnn [e He]]. eexists. now apply (bridge_valid env this e).
Qed.

End Handle.

(** ** Marshalling of the greeting *)

Section GreetingMarshalling.
Import CString.

(** C10.  The literal has 27 characters, each a 7-bit character other than
    NUL.  So [hello] holds all 27, the reader of [hello.c_str()] finds
    these 27 bytes before the terminator, and their modified UTF-8 decoding
    is one UTF-16 unit per byte with the byte's own value: nothing is cut
    and nothing is changed on the way to the managed string. *)
Theorem greeting_marshalled_intact (p : Process) :
  length (list_byte_of_string greeting) = 27%nat /\
  Forall ascii_nonnul (list_byte_of_string greeting) /\
  exists hello p1,
    std_string_ctor (literal greeting) p = Returns (hello, p1) /\
    len hello = 27%nat /\
    Jni.c_string_at (native p1) (c_str hello) =
      Some (list_byte_of_string greeting) /\
    MUTF8.decode (list_byte_of_string greeting) =
      Some (map code (list_byte_of_string greeting)) /\
    length (map code (list_byte_of_string greeting)) = 27%nat.
Proof.
  split; [reflexivity|]. split; [exact greeting_ascii|].
  eexists _, _. split; [apply ctor_greeting|].
  split; [reflexivity|]. split; [apply c_string_at_hello|].
  split; [exact greeting_decodes|reflexivity].
Qed.

End GreetingMarshalling.

(** ** The exported symbol *)

Section Symbol.
Import SymbolSpec.

(** Escaping leaves no separator in the name. *)
Lemma escape_qualified_no_dot (s : String.string) :
  String.index 0 "." (escape_qualified s) = None.
Proof.
  induction s as [|c s IH]; [reflexivity|]. cbn [escape_qualified].
  destruct (Ascii.eqb_spec c ".") as [->|Hd].
  - cbn. now rewrite IH.
  - destruct (Ascii.eqb_spec c "_") as [->|Hu].
    + cbn. now rewrite IH.
    + cbn. destruct c as [[] [] [] [] [] [] [] []]; cbn; now rewrite ?IH.
Qed.

(** C6.  The name the bridge is exported under is the one the naming rule
    gives for the caller type [com.auraframes.fx.MainActivity] and the
    method [stringFromJNI]: prefix, escaped qualified type name and method
    name, joined by underscores. *)
Theorem exported_symbol_follows_rule :
  exported_symbol =
  symbol_name "com.auraframes.fx.MainActivity" "stringFromJNI".
Proof. reflexivity. Qed.

End Symbol.

(** ** The three actions of an invocation *)

Section Actions.
Import Jni.
Implicit Types (p : Process) (e : JNIEnv) (env this r : Z) (hello : std_string).

Lemma step_ctor env this p :
  thread_step (Entered env this) p =
  Some (Built env {| data := native_alloc (native p); len := 27 |},
        set_native (<[native_alloc (native p) := hello_buffer]> (native p)) p).
Proof. cbn [thread_step]. unfold advance. now rewrite ctor_greeting. Qed.

Lemma step_call_valid env e hello p :
  env <> NULL -> envs p !! env = Some e ->
  thread_step (Built env hello) p =
  Some (Called hello (fst (NewStringUTF e (data hello) (native p) (jvm p))),
        set_jvm (snd (NewStringUTF e (data hello) (native p) (jvm p))) p).
Proof.
  intros Hnn He. cbn [thread_step]. unfold advance, JNIEnv_NewStringUTF.
  unfold mbind, Native_bind, bind. now rewrite (deref_valid env e).
Qed.

Lemma step_call_invalid env hello p :
  env = NULL \/ envs p !! env = None ->
  thread_step (Built env hello) p = Some (Crashed, p).
Proof.
  intros H. cbn [thread_step]. unfold advance, JNIEnv_NewStringUTF.
  unfold mbind, Native_bind, bind. now rewrite deref_invalid.
Qed.

Lemma step_dtor hello r p buf :
  native p !! data hello = Some buf ->
  thread_step (Called hello r) p =
  Some (Returned r, set_native (delete (data hello) (native p)) p).
Proof.
  intros Hb. cbn [thread_step].
  unfold advance, std_string_dtor, operator_delete.
  now rewrite Hb.
Qed.

End Actions.

(** ** Sequences of invocations *)

Section Sequences.
Import Jni.
Implicit Types (p q : Process) (e : JNIEnv) (env this r : Z).

Lemma bridge_conforming env e this p :
  valid_handle p env e ->
  exists r j',
    stringFromJNI env this p = Returns (r, set_jvm j' p) /\
    NewStringUTF_post greeting_units (jvm p) (r, j').
Proof.
  intros (Hnn & He & Hc).
  exists (fst (the_call e p)), (snd (the_call e p)).
  split; [now apply bridge_valid|].
  rewrite <- surjective_pairing. now apply the_call_post.
Qed.

(** The caller reference takes no part in the computation. *)
Lemma bridge_ignores_caller env this this' p :
  stringFromJNI env this p = stringFromJNI env this' p.
Proof. reflexivity. Qed.

(** What a sequence of invocations through valid handles leaves: the same
    native memory, tables and world; a managed heap that extends the initial
    one by at most one string per call; and results that are new, distinct
    references to strings holding the greeting. *)
Lemma invocations_spec (calls : list (Z * Z)) : forall p,
  Forall (fun c => exists e, valid_handle p (fst c) e) calls ->
  exists rs p',
    invocations calls p = Returns (rs, p') /\
    length rs = length calls /\
    (envs p' = envs p /\ native p' = native p /\ world p' = world p) /\
    objects (jvm p) ⊆ objects (jvm p') /\
    (size (objects (jvm p')) <= size (objects (jvm p)) + length calls)%nat /\
    (forall r, r ∈ rs -> r <> NULL ->
       objects (jvm p) !! r = None /\
       objects (jvm p') !! r = Some greeting_units) /\
    NoDup (filter (fun r => r <> NULL) rs).
Proof.
  induction calls as [|[env this] calls IH]; intros p Hv.
  - exists [], p. cbn.
    split; [reflexivity|]. split; [reflexivity|]. split; [auto|].
    split; [reflexivity|]. split; [lia|]. split; [|constructor].
    intros r Hr. inversion Hr.
  - apply Forall_cons in Hv as [[e He] Hv].
    destruct (bridge_conforming env e this p He) as (r & j' & Hcall & Hpost).
    destruct (IH (set_jvm j' p) Hv)
      as (rs & p' & Hrest & Hlen & (Henv & Hnat & Hw)
          & Hsub & Hsize & Hres & Hnd).
    exists (r :: rs), p'. cbn [invocations].
    unfold mbind, Native_bind, bind. rewrite Hcall.
    unfold mbind, Native_bind, bind in Hrest. rewrite Hrest.
    cbn [jvm set_jvm envs native world length] in *.
    split; [reflexivity|]. split; [now rewrite Hlen|].
    split; [auto|].
    inversion Hpost as [r0 j0 Hr0 Hfresh Hobj Hpend|j0 Hobj Hpend]; subst.
    + rewrite Hobj in *.
      assert (objects (jvm p) ⊆ <[r := greeting_units]> (objects (jvm p)))
        as Hins by now apply insert_subseteq.
      split; [now transitivity (<[r := greeting_units]> (objects (jvm p)))|].
      split.
      { rewrite map_size_insert_None in Hsize by assumption. lia. }
      split.
      { intros r' Hr' Hnn. apply elem_of_cons in Hr' as [->|Hr'].
        - split; [assumption|].
          apply (lookup_weaken _ _ _ _ (lookup_insert_eq _ _ _) Hsub).
        - destruct (Hres r' Hr' Hnn) as [Hnone Hsome]. split; [|assumption].
          destruct (objects (jvm p) !! r') eqn:E; [|reflexivity].
          apply (lookup_weaken _ _ _ _ E) in Hins. congruence. }
      rewrite filter_cons_True by assumption. constructor; [|assumption].
      intros Hin. apply list_elem_of_filter in Hin as [Hnn Hin].
      destruct (Hres r Hin Hnn) as [Hnone _].
      rewrite lookup_insert_eq in Hnone. discriminate.
    + rewrite Hobj in *.
      split; [assumption|]. split; [lia|]. split.
      { intros r' Hr' Hnn. apply elem_of_cons in Hr' as [->|Hr'];
          [contradiction|auto]. }
      rewrite filter_cons_False by (intros H; now apply H). assumption.
Qed.

(** C2.  The result does not depend on the arguments.  The caller reference
    is never read: two invocations that differ in it only are the same
    computation.  Any two invocations, through any valid context handles,
    with any caller references and in any processes, return strings of equal
    content.  And in a sequence of invocations every returned string still
    holds the greeting when the sequence ends, each under a reference of its
    own: no invocation alters the result of another. *)
Theorem bridge_result_independent_of_arguments (calls : list (Z * Z)) p :
  Forall (fun c => exists e, valid_handle p (fst c) e) calls ->
  (forall env this this' q,
     stringFromJNI env this q = stringFromJNI env this' q) /\
  (forall env1 e1 this1 p1 r1 q1 env2 e2 this2 p2 r2 q2,
     valid_handle p1 env1 e1 -> valid_handle p2 env2 e2 ->
     stringFromJNI env1 this1 p1 = Returns (r1, q1) ->
     stringFromJNI env2 this2 p2 = Returns (r2, q2) ->
     r1 <> NULL -> r2 <> NULL ->
     objects (jvm q1) !! r1 = objects (jvm q2) !! r2) /\
  exists rs p',
    invocations calls p = Returns (rs, p') /\
    length rs = length calls /\
    (forall r, r ∈ rs -> r <> NULL ->
       objects (jvm p') !! r = Some greeting_units) /\
    NoDup (filter (fun r => r <> NULL) rs).
Proof.
  intros Hv. split; [intros; apply bridge_ignores_caller|]. split.
  - intros env1 e1 this1 p1 r1 q1 env2 e2 this2 p2 r2 q2 H1 H2 E1 E2 Hr1 Hr2.
    assert (forall env e this p0 r q,
              valid_handle p0 env e -> stringFromJNI env this p0 = Returns (r, q) ->
              r <> NULL -> objects (jvm q) !! r = Some greeting_units) as Hone.
    { intros env e this p0 r q Hh E Hr.
      destruct (bridge_conforming env e this p0 Hh) as (r' & j' & E' & Hpost).
      rewrite E in E'. injection E' as -> ->.
      inversion Hpost as [r0 j0 _ _ Hobj _|]; subst; [|contradiction].
      cbn. rewrite Hobj. apply lookup_insert_eq. }
    rewrite (Hone _ _ _ _ _ _ H1 E1 Hr1), (Hone _ _ _ _ _ _ H2 E2 Hr2).
    reflexivity.
  - destruct (invocations_spec calls p Hv)
      as (rs & p' & E & Hlen & _ & _ & _ & Hres & Hnd).
    exists rs, p'. repeat (split; [assumption|]). split; [|assumption].
    intros r Hr Hnn. now apply Hres.
Qed.

Lemma bridge_result_independent_of_arguments_witness :
  (forall env this this' q,
     stringFromJNI env this q = stringFromJNI env this' q) /\
  (forall env1 e1 this1 p1 r1 q1 env2 e2 this2 p2 r2 q2,
     valid_handle p1 env1 e1 -> valid_handle p2 env2 e2 ->
     stringFromJNI env1 this1 p1 = Returns (r1, q1) ->
     stringFromJNI env2 this2 p2 = Returns (r2, q2) ->
     r1 <> NULL -> r2 <> NULL ->
     objects (jvm q1) !! r1 = objects (jvm q2) !! r2) /\
  exists rs p',
    invocations [(4096, 11); (4096, 12); (4096, 13)] (RefJVM.process 2)
      = Returns (rs, p') /\
    length rs = 3%nat /\
    (forall r, r ∈ rs -> r <> NULL ->
       objects (jvm p') !! r = Some greeting_units) /\
    NoDup (filter (fun r => r <> NULL) rs).
Proof.
  apply (bridge_result_independent_of_arguments
           [(4096, 11); (4096, 12); (4096, 13)] (RefJVM.process 2)).
  repeat constructor; exists RefJVM.env; apply reference_handle.
Defined.

(** C5.  Invocations change nothing of the process but the managed heap,
    and that only by allocation.  After any number of invocations through
    valid handles the world (globals and files), the interface tables and
    native memory are what they were; every object of the managed heap is
    still there unchanged, and at most one object per call has been added.
    Within a call, the first action allocates the one native buffer, that
    of [hello], at an address that was free; it is gone again at the end. *)
Theorem bridge_changes_no_process_state (calls : list (Z * Z)) p :
  Forall (fun c => exists e, valid_handle p (fst c) e) calls ->
  (exists rs p',
     invocations calls p = Returns (rs, p') /\
     world p' = world p /\ envs p' = envs p /\ native p' = native p /\
     objects (jvm p) ⊆ objects (jvm p') /\
     (size (objects (jvm p')) <= size (objects (jvm p)) + length calls)%nat) /\
  (forall env this q,
     exists hello,
       native q !! data hello = None /\
       thread_step (Entered env this) q =
       Some (Built env hello,
             set_native (<[data hello := hello_buffer]> (native q)) q)).
Proof.
  intros Hv. split.
  - destruct (invocations_spec calls p Hv)
      as (rs & p' & E & _ & (Henv & Hnat & Hw) & Hsub & Hsize & _).
    exists rs, p'. auto 10.
  - intros env this q.
    exists {| data := native_alloc (native q); len := 27 |}.
    split; [apply native_alloc_fresh|apply step_ctor].
Qed.

Lemma bridge_changes_no_process_state_witness :
  (exists rs p',
     invocations [(4096, 11); (4096, 12); (4096, 13)] (RefJVM.process 2)
       = Returns (rs, p') /\
     world p' = world (RefJVM.process 2) /\
     envs p' = envs (RefJVM.process 2) /\
     native p' = native (RefJVM.process 2) /\
     objects (jvm (RefJVM.process 2)) ⊆ objects (jvm p') /\
     (size (objects (jvm p')) <=
      size (objects (jvm (RefJVM.process 2))) + 3)%nat) /\
  (forall env this q,
     exists hello,
       native q !! data hello = None /\
       thread_step (Entered env this) q =
       Some (Built env hello,
             set_native (<[data hello := hello_buffer]> (native q)) q)).
Proof.
  apply (bridge_changes_no_process_state
           [(4096, 11); (4096, 12); (4096, 13)] (RefJVM.process 2)).
  repeat constructor; exists RefJVM.env; apply reference_handle.
Defined.

End Sequences.

(** ** Threads *)

Section Threads.
Import Jni.
Implicit Types (p : Process) (t : thread) (ts : list thread).


Lemma remaining_insert ts : forall i t t',
  ts !! i = Some t ->
  (remaining_all (<[i := t']> ts) + remaining t =
   remaining_all ts + remaining t')%nat.
Proof.
  induction ts as [|t0 ts IH]; intros [|i] t t' Hi; try discriminate.
  - injection Hi as ->. cbn. lia.
  - cbn in Hi. specialize (IH i t t' Hi).
    change (<[S i := t']> (t0 :: ts)) with (t0 :: <[i := t']> ts).
    unfold remaining_all in *. cbn [foldr]. lia.
Qed.

Lemma initial_config_ok (calls : list (Z * Z)) p0 :
  Forall (fun c => exists e, valid_handle p0 (fst c) e) calls ->
  config_ok p0 (map enter calls, p0).
Proof.
  intros Hv. split; [reflexivity|]. split; [reflexivity|]. split.
  - intros i t Hi. cbn in Hi. apply list_lookup_fmap_Some in Hi as (c & -> & Hc).
    rewrite Forall_lookup in Hv. exact (Hv i c Hc).
  - intros i j ti tj Hi Hj _.
    apply list_lookup_fmap_Some in Hi as (ci & -> & _).
    apply list_lookup_fmap_Some in Hj as (cj & -> & _).
    split; intros; discriminate.
Qed.

Lemma thread_ok_buffer p0 p t a :
  thread_ok p0 p t -> buffer_of t = Some a ->
  native p !! a = Some hello_buffer.
Proof.
  destruct t; cbn; intros H E; try discriminate; injection E as <-; tauto.
Qed.

Lemma thread_ok_result p0 p t r :
  thread_ok p0 p t -> result_of t = Some r -> r <> NULL ->
  objects (jvm p) !! r = Some greeting_units.
Proof.
  destruct t; cbn; intros H E; try discriminate; injection E as <-; tauto.
Qed.

(** A thread is unaffected by changes to what it does not own. *)
Lemma thread_ok_frame p0 p p' t :
  thread_ok p0 p t ->
  (forall a, buffer_of t = Some a -> native p' !! a = native p !! a) ->
  (forall r, result_of t = Some r -> r <> NULL ->
     objects (jvm p') !! r = objects (jvm p) !! r) ->
  thread_ok p0 p' t.
Proof.
  destruct t as [env this|env hello|hello r|r|]; cbn; intros H Hb Hr.
  - exact H.
  - destruct H as [Hv Hn]. split; [exact Hv|]. now rewrite Hb.
  - destruct H as [Hn Ho]. split; [now rewrite Hb|].
    intros Hnn. rewrite Hr by auto. auto.
  - intros Hnn. rewrite Hr by auto. auto.
  - exact H.
Qed.

(** One thread moves: the configuration stays well-formed when the thread
    is well-formed afterwards, the others keep what they own, and what the
    thread now owns belongs to no other. *)
Lemma config_ok_update p0 ts p i t t' p' :
  config_ok p0 (ts, p) ->
  ts !! i = Some t ->
  envs p' = envs p -> world p' = world p ->
  thread_ok p0 p' t' ->
  (forall k tk, k <> i -> ts !! k = Some tk -> thread_ok p0 p' tk) ->
  (forall a k tk, buffer_of t' = Some a -> k <> i -> ts !! k = Some tk ->
     buffer_of tk <> Some a) ->
  (forall r k tk, r <> NULL -> result_of t' = Some r -> k <> i ->
     ts !! k = Some tk -> result_of tk <> Some r) ->
  config_ok p0 (<[i := t']> ts, p').
Proof.
  intros (Henv & Hw & Hok & Hsep) Hi Henv' Hw' Hok' Hothers Hbuf Hres.
  unfold config_ok. cbn [fst snd] in *.
  split; [congruence|]. split; [congruence|]. split.
  - intros k tk Hk. apply list_lookup_insert_Some in Hk
      as [(<- & <- & _)|(Hne & Hk)]; [exact Hok'|].
    apply (Hothers k); [congruence|exact Hk].
  - intros k l tk tl Hk Hl Hkl.
    apply list_lookup_insert_Some in Hk as [(<- & <- & _)|(Hnk & Hk)];
      apply list_lookup_insert_Some in Hl as [(<- & <- & _)|(Hnl & Hl)].
    + contradiction.
    + split.
      * intros a Ha. apply (Hbuf a l); auto.
      * intros r Hnn Hr. apply (Hres r l); auto.
    + split.
      * intros a Ha Ha'. apply (Hbuf a k tk); auto.
      * intros r Hnn Hr Hr'. apply (Hres r k tk); auto.
    + apply (Hsep k l); assumption.
Qed.

(** Every action of a thread of a well-formed configuration leaves it
    well-formed, and is one of the three the thread had to perform. *)
Lemma step_preserves p0 c c' :
  config_ok p0 c -> step c c' ->
  config_ok p0 c' /\ remaining_all (fst c) = S (remaining_all (fst c')).
Proof.
  intros Hc Hstep. destruct Hstep as [i ts p t t' p' Hi Hstep].
  pose proof Hc as (Henv & Hw & Hok & Hsep). cbn [fst snd] in *.
  pose proof (Hok i t Hi) as Ht.
  assert (remaining t = S (remaining t') ->
          remaining_all ts = S (remaining_all (<[i := t']> ts))) as Hrem.
  { intros E. pose proof (remaining_insert ts i t t' Hi). lia. }
  destruct t as [env this|env hello|hello r|r|]; try discriminate.
  - (* the construction of [hello] *)
    rewrite step_ctor in Hstep. injection Hstep as <- <-.
    split; [|now apply Hrem].
    eapply config_ok_update; [exact Hc|exact Hi|reflexivity|reflexivity|..].
    + split; [exact Ht|apply lookup_insert_eq].
    + intros k tk Hk Hlk. apply (thread_ok_frame p0 p); [now apply (Hok k)| |].
      * intros a Ha. cbn. apply lookup_insert_ne. intros <-.
        pose proof (thread_ok_buffer p0 p tk _ (Hok k tk Hlk) Ha) as Hb.
        rewrite native_alloc_fresh in Hb. discriminate.
      * reflexivity.
    + intros a k tk Ha Hk Hlk Hb. cbn in Ha. injection Ha as <-.
      pose proof (thread_ok_buffer p0 p tk _ (Hok k tk Hlk) Hb) as Hb'.
      rewrite native_alloc_fresh in Hb'. discriminate.
    + intros r k tk _ Hr. discriminate.
  - (* the call *)
    destruct Ht as [[e (Hnn & He & Hconf)] Hbuf].
    rewrite (step_call_valid env e hello p Hnn) in Hstep
      by (rewrite Henv; exact He).
    injection Hstep as <- <-. split; [|now apply Hrem].
    assert (NewStringUTF_post greeting_units (jvm p)
              (NewStringUTF e (data hello) (native p) (jvm p))) as Hpost.
    { apply (Hconf _ _ _ greeting_bytes); [|exact greeting_decodes].
      unfold c_string_at. rewrite Hbuf.
      apply chars_terminated, greeting_ascii. }
    destruct (NewStringUTF e (data hello) (native p) (jvm p)) as [r j'].
    cbn [fst snd].
    assert (forall a k tk, buffer_of (Called hello r) = Some a -> k <> i ->
              ts !! k = Some tk -> buffer_of tk <> Some a) as Hmine.
    { intros a k tk Ha Hk Hlk.
      apply (Hsep i k (Built env hello) tk Hi Hlk); [congruence|exact Ha]. }
    inversion Hpost as [r0 j0 Hr0 Hfresh Hobj Hpend|j0 Hobj Hpend]; subst.
    + eapply config_ok_update;
        [exact Hc|exact Hi|reflexivity|reflexivity|..|exact Hmine|].
      * split; [exact Hbuf|]. intros _. cbn. rewrite Hobj.
        apply lookup_insert_eq.
      * intros k tk Hk Hlk.
        apply (thread_ok_frame p0 p); [now apply (Hok k)|reflexivity|].
        intros r' Hr' Hnn'. cbn. rewrite Hobj. apply lookup_insert_ne.
        intros <-.
        pose proof (thread_ok_result p0 p tk _ (Hok k tk Hlk) Hr' Hnn') as Hs.
        rewrite Hfresh in Hs. discriminate.
      * intros r' k tk Hnn' Hr' Hk Hlk Hres. cbn in Hr'. injection Hr' as <-.
        pose proof (thread_ok_result p0 p tk _ (Hok k tk Hlk) Hres Hnn') as Hs.
        rewrite Hfresh in Hs. discriminate.
    + eapply config_ok_update;
        [exact Hc|exact Hi|reflexivity|reflexivity|..|exact Hmine|].
      * split; [exact Hbuf|]. intros Hn. now contradiction Hn.
      * intros k tk Hk Hlk.
        apply (thread_ok_frame p0 p); [now apply (Hok k)|reflexivity|].
        intros r' _ _. cbn. now rewrite Hobj.
      * intros r' k tk Hnn' Hr'. cbn in Hr'. injection Hr' as <-.
        now contradiction Hnn'.
  - (* the destruction of [hello] *)
    destruct Ht as [Hbuf Hres].
    rewrite (step_dtor hello r p hello_buffer Hbuf) in Hstep.
    injection Hstep as <- <-. split; [|now apply Hrem].
    eapply config_ok_update; [exact Hc|exact Hi|reflexivity|reflexivity|..].
    + exact Hres.
    + intros k tk Hk Hlk.
      apply (thread_ok_frame p0 p); [now apply (Hok k)| |reflexivity].
      intros a Ha. cbn. apply lookup_delete_ne. intros <-.
      apply (Hsep i k (Called hello r) tk Hi Hlk) in Ha; [exact Ha|congruence|].
      reflexivity.
    + intros a k tk Ha. discriminate.
    + intros r' k tk Hnn' Hr' Hk Hlk.
      apply (Hsep i k (Called hello r) tk Hi Hlk); [congruence|exact Hnn'|exact Hr'].
Qed.




Lemma schedule_nsteps (order : list nat) : forall c c',
  schedule order c = Some c' -> nsteps step (length order) c c'.
Proof.
  induction order as [|i order IH]; intros [ts p] c' H; cbn in H.
  - injection H as <-. constructor.
  - unfold sched_step in H. cbn [fst snd] in H.
    destruct (ts !! i) as [t|] eqn:Hi; [|discriminate].
    destruct (thread_step t p) as [[t' p']|] eqn:Hs; [|discriminate].
    apply (nsteps_l _ _ _ (<[i := t']> ts, p')).
    + exact (step_thread i ts p t t' p' Hi Hs).
    + apply IH, H.
Qed.








End Threads.

(** ** The bridge when native memory can run out *)

Section Limited.
Import Jni.
Implicit Types (p : Process) (e : JNIEnv) (env this : Z) (limit : nat).

Lemma reference_process_empty (slots : nat) :
  native_used (native (RefJVM.process slots)) = 0%nat.
Proof. reflexivity. Qed.

(** C3, as the code has it.  The bridge has two ways to fail, and handles
    neither.  The construction of [hello] needs native memory: when
    [operator new] cannot provide it, [std::bad_alloc] leaves the bridge
    uncaught, before [NewStringUTF] is called and with the process as it
    was.  Otherwise, called with a valid context handle, the bridge returns,
    and its result and the managed heap it leaves (the pending exception
    included) are exactly those of one call of the string-construction
    facility, made on the initial managed heap with a pointer to the
    greeting: no retry, no fallback value, no error value of its own.  It
    then returns the null reference exactly when the facility did, with
    [OutOfMemoryError] pending and no object put in its place. *)
Theorem bridge_failure_modes limit env e this p :
  valid_handle p env e ->
  (room_for_hello limit p ->
   exists r p',
     stringFromJNI_limited limit env this p = Ordinary (Returns (r, p')) /\
     (exists bytes mem,
        c_string_at mem bytes = Some greeting_bytes /\
        (r, jvm p') = NewStringUTF e bytes mem (jvm p)) /\
     (r = NULL ->
      pending (jvm p') = Some OutOfMemoryError /\
      objects (jvm p') = objects (jvm p))) /\
  (~ room_for_hello limit p ->
   stringFromJNI_limited limit env this p = Thrown bad_alloc p).
Proof.
  intros (Hnn & He & Hc). split; [|apply limited_without_room].
  intros Hroom.
  exists (fst (the_call e p)), (set_jvm (snd (the_call e p)) p).
  split.
  - rewrite (limited_with_room limit env this p Hroom).
    now rewrite (bridge_valid env this e p Hnn He).
  - split.
    + eexists _, _. split; [apply c_string_at_hello|].
      cbn. unfold the_call. now rewrite <- surjective_pairing.
    + pose proof (the_call_post e p Hc) as Hpost.
      destruct Hpost as [r j' Hr _ _ _|j' Hobj Hpend]; cbn;
        [contradiction|auto].
Qed.

Lemma bridge_failure_modes_witness :
  (room_for_hello 64 (RefJVM.process 0) ->
   exists r p',
     stringFromJNI_limited 64 4096 7 (RefJVM.process 0)
       = Ordinary (Returns (r, p')) /\
     (exists bytes mem,
        c_string_at mem bytes = Some greeting_bytes /\
        (r, jvm p') =
        NewStringUTF RefJVM.env bytes mem (jvm (RefJVM.process 0))) /\
     (r = NULL ->
      pending (jvm p') = Some OutOfMemoryError /\
      objects (jvm p') = objects (jvm (RefJVM.process 0)))) /\
  (~ room_for_hello 64 (RefJVM.process 0) ->
   stringFromJNI_limited 64 4096 7 (RefJVM.process 0)
     = Thrown bad_alloc (RefJVM.process 0)).
Proof.
  apply (bridge_failure_modes 64 4096 RefJVM.env 7 (RefJVM.process 0)).
  apply reference_handle.
Defined.

(** C3 as stated fails: with a valid context handle and a runtime that would
    create the string, but no native memory for [hello], the bridge fails
    all the same, by [std::bad_alloc], a failure that is not one of the
    string-construction facility. *)
Lemma bridge_fails_before_the_facility :
  valid_handle (RefJVM.process 2) 4096 RefJVM.env /\
  fst (the_call RefJVM.env (RefJVM.process 2)) <> NULL /\
  stringFromJNI_limited 0 4096 7 (RefJVM.process 2)
    = Thrown bad_alloc (RefJVM.process 2).
Proof.
  split; [apply reference_handle|]. split.
  - vm_compute. discriminate.
  - apply limited_without_room. unfold room_for_hello.
    rewrite reference_process_empty. lia.
Qed.

Lemma step_limited_ctor_room limit env this p :
  room_for_hello limit p ->
  thread_step_limited limit (Active (Entered env this)) p =
  Some (Active (Built env {| data := native_alloc (native p); len := 27 |}),
        set_native (<[native_alloc (native p) := hello_buffer]> (native p)) p).
Proof.
  intros Hroom. cbn [thread_step_limited].
  now rewrite (ctor_limited_room limit p Hroom), ctor_greeting.
Qed.

Lemma step_limited_ctor_full limit env this p :
  ~ room_for_hello limit p ->
  thread_step_limited limit (Active (Entered env this)) p =
  Some (Unwinding bad_alloc, p).
Proof.
  intros Hfull. cbn [thread_step_limited].
  now rewrite (ctor_limited_full limit p Hfull).
Qed.

(** C7, as the code has it.  The body of the bridge has no loop: an
    invocation is over after at most three actions (the host's
    [NewStringUTF] being taken to return).  It ends by returning a value to
    the caller exactly when native memory has room for the buffer of [hello]
    and the handle is a non-null pointer to an interface table.  Without
    that room it ends at its first action: [std::bad_alloc] leaves the
    function, which does not return, and the process is as it was. *)
Theorem bridge_returns_when_memory_suffices limit env this p :
  exists a p',
    run_limited limit 3 (Active (Entered env this)) p = (a, p') /\
    thread_step_limited limit a p' = None /\
    stringFromJNI_limited limit env this p = completion_of a p' /\
    ((exists r, a = Active (Returned r)) <->
     room_for_hello limit p /\ env <> NULL /\ is_Some (envs p !! env)) /\
    (~ room_for_hello limit p -> a = Unwinding bad_alloc /\ p' = p).
Proof.
  assert (room_for_hello limit p \/ ~ room_for_hello limit p)
    as [Hroom|Hfull] by (unfold room_for_hello; lia).
  - destruct (Z.eq_dec env NULL) as [Hn|Hnn];
      [|destruct (envs p !! env) as [e|] eqn:He].
    + exists (Active Crashed). eexists. cbn [run_limited].
      rewrite (step_limited_ctor_room limit env this p Hroom).
      cbn [thread_step_limited]. rewrite step_call_invalid by now left.
      cbn [thread_step_limited thread_step].
      split; [reflexivity|]. split; [reflexivity|]. split.
      * rewrite (limited_with_room limit env this p Hroom).
        now rewrite bridge_invalid by now left.
      * split; [|intros; contradiction]. split.
        -- intros [r Hr]. discriminate.
        -- intros (_ & Hnn & _). contradiction.
    + eexists (Active (Returned _)), _. cbn [run_limited].
      rewrite (step_limited_ctor_room limit env this p Hroom).
      cbn [thread_step_limited].
      rewrite (step_call_valid env e) by assumption.
      cbn [thread_step_limited].
      rewrite (step_dtor _ _ _ hello_buffer) by apply lookup_insert_eq.
      cbn [data native set_native set_jvm jvm envs world].
      rewrite alloc_then_release.
      cbn [thread_step_limited thread_step].
      split; [reflexivity|]. split; [reflexivity|]. split.
      * rewrite (limited_with_room limit env this p Hroom).
        now rewrite (bridge_valid env this e).
      * split; [|intros; contradiction]. split; [|eauto].
        intros _. split; [exact Hroom|]. split; [exact Hnn|eauto].
    + exists (Active Crashed). eexists. cbn [run_limited].
      rewrite (step_limited_ctor_room limit env this p Hroom).
      cbn [thread_step_limited]. rewrite step_call_invalid by now right.
      cbn [thread_step_limited thread_step].
      split; [reflexivity|]. split; [reflexivity|]. split.
      * rewrite (limited_with_room limit env this p Hroom).
        now rewrite bridge_invalid by now right.
      * split; [|intros; contradiction]. split.
        -- intros [r Hr]. discriminate.
        -- intros (_ & _ & [e' He']). congruence.
  - exists (Unwinding bad_alloc), p. cbn [run_limited].
    rewrite (step_limited_ctor_full limit env this p Hfull).
    cbn [thread_step_limited].
    split; [reflexivity|]. split; [reflexivity|]. split.
    + now apply limited_without_room.
    + split; [|auto]. split.
      * intros [r Hr]. discriminate.
      * intros (Hroom & _). contradiction.
Qed.

(** C7 as stated fails: an invocation through a valid context handle, in a
    process with no native memory left for [hello], does not return; it is
    over after one action, with [std::bad_alloc] on its way out. *)
Lemma bridge_does_not_return_without_memory :
  valid_handle (RefJVM.process 2) 4096 RefJVM.env /\
  run_limited 0 3 (Active (Entered 4096 7)) (RefJVM.process 2)
    = (Unwinding bad_alloc, RefJVM.process 2) /\
  ~ (exists r p',
       stringFromJNI_limited 0 4096 7 (RefJVM.process 2)
         = Ordinary (Returns (r, p'))).
Proof.
  assert (~ room_for_hello 0 (RefJVM.process 2)) as Hfull.
  { unfold room_for_hello. rewrite reference_process_empty. lia. }
  split; [apply reference_handle|]. split.
  - cbn [run_limited].
    now rewrite (step_limited_ctor_full 0 4096 7 (RefJVM.process 2) Hfull).
  - intros (r & p' & E).
    rewrite (limited_without_room 0 4096 7 (RefJVM.process 2) Hfull) in E.
    discriminate.
Qed.

Example run_with_native_memory :
  stringFromJNI_limited 28 4096 11 (RefJVM.process 2) =
  Ordinary (stringFromJNI 4096 11 (RefJVM.process 2)).
Proof.
  apply limited_with_room. unfold room_for_hello.
  rewrite reference_process_empty. lia.
Qed.

Example run_without_native_memory :
  stringFromJNI_limited 27 4096 11 (RefJVM.process 2) =
  Thrown bad_alloc (RefJVM.process 2).
Proof.
  apply limited_without_room. unfold room_for_hello.
  rewrite reference_process_empty. lia.
Qed.

End Limited.

(** ** The bridge run on the reference runtime *)

Section Runs.
Import Jni.

Example run_once :
  shown (stringFromJNI 4096 11 (RefJVM.process 2)) =
  Some (1, [(1, greeting_units)], [], None).
Proof. vm_compute. reflexivity. Qed.

Example run_without_room :
  shown (stringFromJNI 4096 11 (RefJVM.process 0)) =
  Some (NULL, [], [], Some OutOfMemoryError).
Proof. vm_compute. reflexivity. Qed.

Example run_with_null_handle :
  shown (stringFromJNI NULL 11 (RefJVM.process 2)) = None.
Proof. vm_compute. reflexivity. Qed.

Example run_with_dangling_handle :
  shown (stringFromJNI 5 11 (RefJVM.process 2)) = None.
Proof. vm_compute. reflexivity. Qed.

Example greeting_units_value :
  greeting_units =
  [72; 101; 108; 108; 111; 32; 102; 114; 111; 109; 32; 71; 101; 110; 101;
   115; 105; 115; 32; 67; 43; 43; 32; 67; 111; 114; 101].
Proof. reflexivity. Qed.

Example run_eight_threads :
  option_map fst (schedule RefJVM.interleaving RefJVM.eight_threads) =
  Some [Returned 8; Returned 7; Returned 6; Returned 5;
        Returned 4; Returned 3; Returned 2; Returned 1].
Proof. vm_compute. reflexivity. Qed.

(** The escape of the naming rule, on a type name that has an underscore. *)
Example symbol_name_escapes :
  SymbolSpec.symbol_name "com.aura_frames.fx.MainActivity" "stringFromJNI" =
  "Java_com_aura_1frames_fx_MainActivity_stringFromJNI"%string.
Proof. reflexivity. Qed.

(** An embedded NUL would cut the text short; the greeting has none. *)
Example embedded_nul_truncates :
  CString.chars (CString.literal (String "H" (String "i" (String "000" "!")))) =
  Some (list_byte_of_string "Hi").
Proof. reflexivity. Qed.

End Runs.

(** ** What a sequence of invocations allocates *)

Section Accounting.
Import Jni.
Implicit Types (p : Process) (r : Z).

(** X2.  The bridge never hands out an object that existed already, and
    keeps no string for a later call: in a sequence of invocations through
    valid handles every non-null result is a reference that was free in the
    initial managed heap, every object of the final heap is an initial one
    or one of these results, and the heap has grown by exactly one object
    per non-null result (none for a call that failed). *)
Theorem invocations_allocate_exactly (calls : list (Z * Z)) p :
  Forall (fun c => exists e, valid_handle p (fst c) e) calls ->
  exists rs p',
    invocations calls p = Returns (rs, p') /\
    (forall r, r ∈ rs -> r <> NULL -> objects (jvm p) !! r = None) /\
    (forall r, is_Some (objects (jvm p') !! r) ->
       is_Some (objects (jvm p) !! r) \/ (r ∈ rs /\ r <> NULL)) /\
    size (objects (jvm p')) =
      (size (objects (jvm p)) + length (filter (fun r => r <> NULL) rs))%nat.
Proof.
  revert p. induction calls as [|[env this] calls IH]; intros p Hv.
  - exists [], p. cbn. split; [reflexivity|]. split.
    + intros r Hr. inversion Hr.
    + split; [auto|lia].
  - apply Forall_cons in Hv as [[e He] Hv].
    destruct (bridge_conforming env e this p He) as (r & j' & Hcall & Hpost).
    destruct (IH (set_jvm j' p) Hv) as (rs & p' & Hrest & Hnew & Hall & Hsize).
    exists (r :: rs), p'. cbn [invocations].
    unfold mbind, Native_bind, bind. rewrite Hcall.
    unfold mbind, Native_bind, bind in Hrest. rewrite Hrest.
    cbn [jvm set_jvm] in *. split; [reflexivity|].
    inversion Hpost as [r0 j0 Hr0 Hfresh Hobj Hpend|j0 Hobj Hpend]; subst.
    + rewrite Hobj in *. split; [|split].
      * intros r' Hr' Hnn. apply elem_of_cons in Hr' as [->|Hr'];
          [assumption|].
        specialize (Hnew r' Hr' Hnn).
        apply lookup_insert_None in Hnew. tauto.
      * intros x Hx. destruct (Hall x Hx) as [Hin|[Hin Hnn]].
        -- destruct (decide (r = x)) as [<-|Hne].
           ++ right. split; [apply elem_of_cons; now left|assumption].
           ++ left. now rewrite lookup_insert_ne in Hin.
        -- right. split; [apply elem_of_cons; now right|assumption].
      * rewrite filter_cons_True by assumption.
        rewrite map_size_insert_None in Hsize by assumption.
        cbn [length]. lia.
    + rewrite Hobj in *. split; [|split].
      * intros r' Hr' Hnn. apply elem_of_cons in Hr' as [->|Hr'];
          [contradiction|auto].
      * intros x Hx. destruct (Hall x Hx) as [Hin|[Hin Hnn]]; [now left|].
        right. split; [apply elem_of_cons; now right|assumption].
      * rewrite filter_cons_False by (intros H; now apply H). exact Hsize.
Qed.

Lemma invocations_allocate_exactly_witness :
  exists rs p',
    invocations [(4096, 11); (4096, 12); (4096, 13)] (RefJVM.process 2)
      = Returns (rs, p') /\
    (forall r, r ∈ rs -> r <> NULL ->
       objects (jvm (RefJVM.process 2)) !! r = None) /\
    (forall r, is_Some (objects (jvm p') !! r) ->
       is_Some (objects (jvm (RefJVM.process 2)) !! r) \/
       (r ∈ rs /\ r <> NULL)) /\
    size (objects (jvm p')) =
      (size (objects (jvm (RefJVM.process 2)))
       + length (filter (fun r => r <> NULL) rs))%nat.
Proof.
  apply (invocations_allocate_exactly
           [(4096, 11); (4096, 12); (4096, 13)] (RefJVM.process 2)).
  repeat constructor; exists RefJVM.env; apply reference_handle.
Defined.

End Accounting.

(** ** The heaps under concurrent invocations *)

Section ConcurrentHeaps.
Import Jni.
Implicit Types (p : Process) (t : thread) (ts : list thread).

(** A thread that moves keeps being the owner of what it still holds. *)
Lemma owner_kept (P : thread -> Prop) ts i t t' :
  ts !! i = Some t -> (P t -> P t') ->
  (exists k tk, ts !! k = Some tk /\ P tk) ->
  exists k tk, <[i := t']> ts !! k = Some tk /\ P tk.
Proof.
  intros Hi Hkeep (k & tk & Hk & HP).
  destruct (decide (k = i)) as [->|Hne].
  - exists i, t'. split.
    + apply list_lookup_insert_eq. now apply lookup_lt_Some in Hi.
    + apply Hkeep. congruence.
  - exists k, tk. split; [|exact HP].
    rewrite list_lookup_insert_ne by congruence. exact Hk.
Qed.

Lemma initial_accounted (calls : list (Z * Z)) p0 :
  accounted p0 (map enter calls, p0).
Proof.
  unfold accounted. cbn [fst snd].
  split; [reflexivity|]. split; [auto|]. split.
  - intros i t a Hi Ha.
    apply list_lookup_fmap_Some in Hi as (c & -> & _). discriminate.
  - split; [reflexivity|]. split; [auto|].
    intros i t r Hi Hr.
    apply list_lookup_fmap_Some in Hi as (c & -> & _). discriminate.
Qed.

Lemma step_accounted p0 c c' :
  config_ok p0 c -> accounted p0 c -> step c c' -> accounted p0 c'.
Proof.
  intros Hc Hacc Hstep. destruct Hstep as [i ts p t t' p' Hi Hstep].
  destruct Hc as (Henv & _ & Hok & _).
  destruct Hacc as (Hn1 & Hn2 & Hn3 & Ho1 & Ho2 & Ho3).
  unfold accounted. cbn [fst snd] in *.
  pose proof (Hok i t Hi) as Ht.
  pose proof (lookup_lt_Some _ _ _ Hi) as Hlen.
  destruct t as [env this|env hello|hello r|r|]; try discriminate.
  - (* the construction of [hello] *)
    rewrite step_ctor in Hstep. injection Hstep as <- <-.
    cbn [native jvm set_native].
    pose proof (native_alloc_fresh (native p)) as Hfresh.
    pose proof (lookup_weaken_None _ _ _ Hfresh Hn1) as Hfresh0.
    split; [now apply insert_subseteq_r|].
    split; [|split; [|split; [|split]]].
    + intros x Hx. destruct (decide (native_alloc (native p) = x)) as [<-|Hne].
      * right. eexists i, _. split; [now apply list_lookup_insert_eq|].
        reflexivity.
      * rewrite lookup_insert_ne in Hx by assumption.
        destruct (Hn2 x Hx) as [H0|Hown]; [now left|right].
        apply (owner_kept (fun t => buffer_of t = Some x) ts i _ _ Hi);
          [discriminate|exact Hown].
    + intros k tk a Hk Ha.
      apply list_lookup_insert_Some in Hk as [(_ & <- & _)|(_ & Hk)].
      * cbn in Ha. injection Ha as <-. exact Hfresh0.
      * exact (Hn3 k tk a Hk Ha).
    + exact Ho1.
    + intros x Hx. destruct (Ho2 x Hx) as [H0|Hown]; [now left|right].
      apply (owner_kept (fun t => result_of t = Some x /\ x <> NULL)
               ts i _ _ Hi); [|exact Hown].
      intros [E _]. discriminate.
    + intros k tk x Hk Hx.
      apply list_lookup_insert_Some in Hk as [(_ & <- & _)|(_ & Hk)].
      * discriminate.
      * exact (Ho3 k tk x Hk Hx).
  - (* the call *)
    destruct Ht as [[e (Hnn & He & Hconf)] Hbuf].
    rewrite (step_call_valid env e hello p Hnn) in Hstep
      by (rewrite Henv; exact He).
    injection Hstep as <- <-.
    assert (NewStringUTF_post greeting_units (jvm p)
              (NewStringUTF e (data hello) (native p) (jvm p))) as Hpost.
    { apply (Hconf _ _ _ greeting_bytes); [|exact greeting_decodes].
      unfold c_string_at. rewrite Hbuf.
      apply chars_terminated, greeting_ascii. }
    destruct (NewStringUTF e (data hello) (native p) (jvm p)) as [r j'].
    cbn [fst snd native jvm set_jvm].
    split; [exact Hn1|]. split; [|split].
    + intros x Hx. destruct (Hn2 x Hx) as [H0|Hown]; [now left|right].
      apply (owner_kept (fun t => buffer_of t = Some x) ts i _ _ Hi);
        [auto|exact Hown].
    + intros k tk a Hk Ha.
      apply list_lookup_insert_Some in Hk as [(_ & <- & _)|(_ & Hk)].
      * exact (Hn3 i _ a Hi Ha).
      * exact (Hn3 k tk a Hk Ha).
    + inversion Hpost as [r0 j0 Hr0 Hfresh Hobj Hpend|j0 Hobj Hpend]; subst;
        rewrite Hobj.
      * split; [|split].
        -- apply insert_subseteq_r; [|exact Ho1].
           exact (lookup_weaken_None _ _ _ Hfresh Ho1).
        -- intros x Hx. destruct (decide (r = x)) as [<-|Hne].
           ++ right. eexists i, _.
              split; [now apply list_lookup_insert_eq|].
              split; [reflexivity|assumption].
           ++ rewrite lookup_insert_ne in Hx by assumption.
              destruct (Ho2 x Hx) as [H0|Hown]; [now left|right].
              apply (owner_kept (fun t => result_of t = Some x /\ x <> NULL)
                       ts i _ _ Hi); [|exact Hown].
              intros [E _]. discriminate.
        -- intros k tk x Hk Hx Hnx.
           apply list_lookup_insert_Some in Hk as [(_ & <- & _)|(_ & Hk)].
           ++ cbn in Hx. injection Hx as <-.
              exact (lookup_weaken_None _ _ _ Hfresh Ho1).
           ++ exact (Ho3 k tk x Hk Hx Hnx).
      * split; [exact Ho1|]. split.
        -- intros x Hx. destruct (Ho2 x Hx) as [H0|Hown]; [now left|right].
           apply (owner_kept (fun t => result_of t = Some x /\ x <> NULL)
                    ts i _ _ Hi); [|exact Hown].
           intros [E _]. discriminate.
        -- intros k tk x Hk Hx Hnx.
           apply list_lookup_insert_Some in Hk as [(_ & <- & _)|(_ & Hk)].
           ++ cbn in Hx. congruence.
           ++ exact (Ho3 k tk x Hk Hx Hnx).
  - (* the destruction of [hello] *)
    destruct Ht as [Hbuf Hres].
    rewrite (step_dtor hello r p hello_buffer Hbuf) in Hstep.
    injection Hstep as <- <-. cbn [native jvm set_native].
    pose proof (Hn3 i _ (data hello) Hi eq_refl) as Hfree0.
    split; [|split; [|split; [|split; [|split]]]].
    + apply map_subseteq_spec. intros a v Ha.
      rewrite lookup_delete_ne by congruence.
      exact (lookup_weaken _ _ _ _ Ha Hn1).
    + intros x Hx. destruct (decide (data hello = x)) as [<-|Hne].
      * rewrite lookup_delete_eq in Hx. now apply is_Some_None in Hx.
      * rewrite lookup_delete_ne in Hx by assumption.
        destruct (Hn2 x Hx) as [H0|Hown]; [now left|right].
        apply (owner_kept (fun t => buffer_of t = Some x) ts i _ _ Hi);
          [|exact Hown].
        intros E. cbn in E. congruence.
    + intros k tk a Hk Ha.
      apply list_lookup_insert_Some in Hk as [(_ & <- & _)|(_ & Hk)].
      * discriminate.
      * exact (Hn3 k tk a Hk Ha).
    + exact Ho1.
    + intros x Hx. destruct (Ho2 x Hx) as [H0|Hown]; [now left|right].
      apply (owner_kept (fun t => result_of t = Some x /\ x <> NULL)
               ts i _ _ Hi); [auto|exact Hown].
    + intros k tk x Hk Hx.
      apply list_lookup_insert_Some in Hk as [(_ & <- & _)|(_ & Hk)].
      * exact (Ho3 i _ x Hi Hx).
      * exact (Ho3 k tk x Hk Hx).
Qed.

Lemma execution_accounted p0 n c c' :
  config_ok p0 c -> accounted p0 c -> nsteps step n c c' -> accounted p0 c'.
Proof.
  intros Hc Hacc Hrun. induction Hrun as [c|n c c1 c' Hstep _ IH].
  - exact Hacc.
  - apply IH.
    + exact (proj1 (step_preserves p0 c c1 Hc Hstep)).
    + exact (step_accounted p0 c c1 Hc Hacc Hstep).
Qed.

Lemma eight_threads_run :
  exists ts p, schedule RefJVM.interleaving RefJVM.eight_threads = Some (ts, p).
Proof.
  assert (match schedule RefJVM.interleaving RefJVM.eight_threads with
          | Some _ => true
          | None => false
          end = true) as H by (vm_compute; reflexivity).
  destruct (schedule RefJVM.interleaving RefJVM.eight_threads) as [[ts p]|];
    [now exists ts, p|discriminate].
Qed.

(** X3.  Concurrent invocations leak no native memory and touch no buffer
    but their own.  In every state that an interleaving of threads invoking
    the bridge through valid handles reaches, the native buffers that were
    live at the start are live and unchanged, and every other live buffer is
    the [hello] of a thread that is between its construction and its
    destruction.  Once all threads have returned, native memory is exactly
    what it was at the start. *)
Theorem concurrent_invocations_leak_nothing
    (calls : list (Z * Z)) p0 n ts p :
  Forall (fun c => exists e, valid_handle p0 (fst c) e) calls ->
  nsteps step n (map enter calls, p0) (ts, p) ->
  native p0 ⊆ native p /\
  (forall a, is_Some (native p !! a) ->
     is_Some (native p0 !! a) \/
     exists i t, ts !! i = Some t /\ buffer_of t = Some a) /\
  ((forall t, t ∈ ts -> finished t = true) -> native p = native p0).
Proof.
  intros Hv Hrun.
  destruct (execution_accounted p0 n _ _ (initial_config_ok calls p0 Hv)
              (initial_accounted calls p0) Hrun) as (Hn1 & Hn2 & _).
  cbn [fst snd] in *. split; [exact Hn1|]. split; [exact Hn2|].
  intros Hfin. apply map_eq. intros a.
  destruct (native p0 !! a) as [v|] eqn:E0.
  - exact (lookup_weaken _ _ _ _ E0 Hn1).
  - destruct (native p !! a) as [v|] eqn:E; [|reflexivity].
    destruct (Hn2 a) as [H0|(i & t & Hi & Hb)]; [now rewrite E| |].
    + rewrite E0 in H0. now apply is_Some_None in H0.
    + assert (finished t = true) as Hf
        by (apply Hfin, list_elem_of_lookup; eauto).
      destruct t; discriminate.
Qed.

Lemma concurrent_invocations_leak_nothing_witness :
  exists ts p,
    schedule RefJVM.interleaving RefJVM.eight_threads = Some (ts, p) /\
    native (RefJVM.threaded_process 8) ⊆ native p /\
    (forall a, is_Some (native p !! a) ->
       is_Some (native (RefJVM.threaded_process 8) !! a) \/
       exists i t, ts !! i = Some t /\ buffer_of t = Some a) /\
    ((forall t, t ∈ ts -> finished t = true) ->
     native p = native (RefJVM.threaded_process 8)).
Proof.
  destruct eight_threads_run as (ts & p & E).
  exists ts, p. split; [exact E|].
  apply (concurrent_invocations_leak_nothing RefJVM.eight_calls
           (RefJVM.threaded_process 8) 24 ts p).
  - apply threaded_handles.
  - exact (schedule_nsteps _ _ _ E).
Defined.

(** X4.  Concurrent invocations create strings of their own and touch no
    other object.  In every state that an interleaving of threads invoking
    the bridge through valid handles reaches, the objects of the initial
    managed heap are there unchanged; every other object is the string
    returned to one of the threads; and that string lies at a reference
    that was free at the start, so no thread is handed an object that
    existed before. *)
Theorem concurrent_invocations_allocate_own_strings
    (calls : list (Z * Z)) p0 n ts p :
  Forall (fun c => exists e, valid_handle p0 (fst c) e) calls ->
  nsteps step n (map enter calls, p0) (ts, p) ->
  objects (jvm p0) ⊆ objects (jvm p) /\
  (forall r, is_Some (objects (jvm p) !! r) ->
     is_Some (objects (jvm p0) !! r) \/
     exists i t, ts !! i = Some t /\ result_of t = Some r /\ r <> NULL) /\
  (forall t r, t ∈ ts -> result_of t = Some r -> r <> NULL ->
     objects (jvm p0) !! r = None).
Proof.
  intros Hv Hrun.
  destruct (execution_accounted p0 n _ _ (initial_config_ok calls p0 Hv)
              (initial_accounted calls p0) Hrun)
    as (_ & _ & _ & Ho1 & Ho2 & Ho3).
  cbn [fst snd] in *. split; [exact Ho1|]. split; [exact Ho2|].
  intros t r Ht Hr Hnn. apply list_elem_of_lookup in Ht as [i Hi].
  exact (Ho3 i t r Hi Hr Hnn).
Qed.

Lemma concurrent_invocations_allocate_own_strings_witness :
  exists ts p,
    schedule RefJVM.interleaving RefJVM.eight_threads = Some (ts, p) /\
    objects (jvm (RefJVM.threaded_process 8)) ⊆ objects (jvm p) /\
    (forall r, is_Some (objects (jvm p) !! r) ->
       is_Some (objects (jvm (RefJVM.threaded_process 8)) !! r) \/
       exists i t, ts !! i = Some t /\ result_of t = Some r /\ r <> NULL) /\
    (forall t r, t ∈ ts -> result_of t = Some r -> r <> NULL ->
       objects (jvm (RefJVM.threaded_process 8)) !! r = None).
Proof.
  destruct eight_threads_run as (ts & p & E).
  exists ts, p. split; [exact E|].
  apply (concurrent_invocations_allocate_own_strings RefJVM.eight_calls
           (RefJVM.threaded_process 8) 24 ts p).
  - apply threaded_handles.
  - exact (schedule_nsteps _ _ _ E).
Defined.

End ConcurrentHeaps.
